(** * Lead intake service (main.py): a shallow embedding and its properties

    The program is a FastAPI application over one SQL table [leads].  The
    embedding keeps the table as the list of its rows, the e-mails printed
    by [send_email] as an outbox, and every route handler as a function
    from the state before the call to the state after it and the response.

    Text is carried as [string], the bytes of its UTF-8 form, so that
    [str.encode("UTF-8")] is the identity on the bytes.  The methods of
    [str] are modelled on ASCII text: [lower] moves exactly the letters
    A-Z and [strip] removes the ASCII white space. *)

From Stdlib Require Import ZArith List String Ascii Bool Lia Permutation Sorted.
Import ListNotations.

Local Open Scope string_scope.
Local Open Scope Z_scope.

(** ** Python's [str] methods used by the handlers *)

Module PyStr.

(** [c.lower()] for one character. *)
Definition lower_ascii (c : ascii) : ascii :=
  let n := N_of_ascii c in
  if ((65 <=? n) && (n <=? 90))%N then ascii_of_N (n + 32) else c.

(** [s.lower()] *)
Fixpoint lower (s : string) : string :=
  match s with
  | EmptyString => EmptyString
  | String c s' => String (lower_ascii c) (lower s')
  end.

(** [s.endswith(suffix)] *)
Definition endswith (s suffix : string) : bool :=
  let n := String.length s in
  let m := String.length suffix in
  ((m <=? n)%nat && (substring (n - m) m s =? suffix)%string)%bool.

(** The characters [str.strip()] removes (ASCII white space). *)
Definition is_space (c : ascii) : bool :=
  let n := N_of_ascii c in
  (((9 <=? n) && (n <=? 13)) || ((28 <=? n) && (n <=? 32)))%N.

Fixpoint lstrip (s : string) : string :=
  match s with
  | EmptyString => EmptyString
  | String c s' => if is_space c then lstrip s' else s
  end.

Fixpoint rstrip (s : string) : string :=
  match s with
  | EmptyString => EmptyString
  | String c s' =>
      match rstrip s' with
      | EmptyString => if is_space c then EmptyString else String c EmptyString
      | r => String c r
      end
  end.

(** [s.strip()] *)
Definition strip (s : string) : string := rstrip (lstrip s).

(** [s.encode("UTF-8")], as the list of the byte values. *)
Definition encode (s : string) : list Z :=
  map (fun c => Z.of_N (N_of_ascii c)) (list_ascii_of_string s).

End PyStr.

(** ** pydantic's [EmailStr]: the validation of the form field [email]

    [validate_email] of pydantic 1.x with email_validator 1.x, which
    FastAPI runs on the field before the handler is called. *)

Module Pydantic.

(** A character of the class [\w]; the bytes of a character outside ASCII
    count as those of a letter. *)
Definition is_word (c : ascii) : bool :=
  let n := N_of_ascii c in
  (((48 <=? n) && (n <=? 57)) || ((65 <=? n) && (n <=? 90)) || (n =? 95)
   || ((97 <=? n) && (n <=? 122)) || (128 <=? n))%N.

Definition line_feed : ascii := ascii_of_N 10.

Fixpoint all_spaces (s : string) : bool :=
  match s with
  | EmptyString => true
  | String c s' => (c =? " ")%char && all_spaces s'
  end.

(** [pretty_email_regex] must match the whole text: a name of word
    characters and spaces, "<", the address (any characters but a line
    feed), ">", and spaces.  [after_name] is what follows the first "<"
    when only word characters and spaces stand before it. *)
Fixpoint after_name (s : string) : option string :=
  match s with
  | EmptyString => None
  | String c s' =>
      if (c =? "<")%char then Some s'
      else if is_word c || (c =? " ")%char then after_name s'
      else None
  end.

(** The address of a text that is the address, ">" and spaces: the text
    before its last ">", which holds no line feed. *)
Fixpoint address_group (s : string) : option string :=
  match s with
  | EmptyString => None
  | String c s' =>
      match address_group s' with
      | Some i => if (c =? line_feed)%char then None else Some (String c i)
      | None =>
          if (c =? ">")%char && all_spaces s' then Some EmptyString
          else None
      end
  end.

(** [pretty_email_regex.fullmatch(value)]: the address between the angle
    brackets of a text such as "Jane Doe <jane@example.com>". *)
Definition pretty_email (value : string) : option string :=
  match after_name value with
  | Some rest => address_group rest
  | None => None
  end.

(** [value] after [if m: name, value = m.groups()]. *)
Definition address_of (value : string) : string :=
  match pretty_email value with
  | Some address => address
  | None => value
  end.

(** The ASCII characters email_validator allows in an atom. *)
Definition atext (c : ascii) : bool :=
  let n := N_of_ascii c in
  (((48 <=? n) && (n <=? 57)) || ((65 <=? n) && (n <=? 90))
   || ((97 <=? n) && (n <=? 122))
   || existsb (N.eqb n)
        [33; 35; 36; 37; 38; 39; 42; 43; 45; 47; 61; 63; 94; 95; 96; 123;
         124; 125; 126])%N.

Definition address_char (c : ascii) : bool :=
  (c =? "@")%char || (c =? ".")%char || atext c
  || (128 <=? N_of_ascii c)%N.

Fixpoint count (c : ascii) (s : string) : nat :=
  match s with
  | EmptyString => O
  | String x s' => ((if (x =? c)%char then 1 else 0) + count c s')%nat
  end.

(** [email_validator.validate_email(email, check_deliverability=False)]
    does not raise: the address has exactly one "@", no character that an
    address cannot hold, and passes the [further] tests of the library
    (lengths, the placing of dots, the labels of the domain). *)
Definition email_validator (further : string -> bool) (email : string)
  : bool :=
  (count "@" email =? 1)%nat
  && forallb address_char (list_ascii_of_string email)
  && further email.

(** [s.index(c)]; [None] is Python's [ValueError]. *)
Fixpoint index (c : ascii) (s : string) : option nat :=
  match s with
  | EmptyString => None
  | String x s' =>
      if (x =? c)%char then Some O
      else match index c s' with
           | Some i => Some (S i)
           | None => None
           end
  end.

(** [EmailStr.validate(value)]: the address as the handler receives it, or
    [None] when the field is refused. *)
Definition validate_email (further : string -> bool) (value : string)
  : option string :=
  let value := address_of value in
  let email := PyStr.strip value in
  if email_validator further email then
    match index "@" email with
    | Some at_index =>
        let local_part := substring 0 at_index email in
        let global_part :=
          PyStr.lower
            (substring at_index (String.length email - at_index) email) in
        Some (local_part ++ global_part)
    | None => None
    end
  else None.

End Pydantic.

(** ** [hashlib.md5]: the MD5 digest of RFC 1321 over byte values *)

Module MD5.

Definition add32 (a b : Z) : Z := (a + b) mod 2 ^ 32.

Definition not32 (a : Z) : Z := Z.lxor a 0xffffffff.

Definition rotl32 (x : Z) (c : Z) : Z :=
  Z.lor (Z.shiftl x c mod 2 ^ 32) (Z.shiftr x (32 - c)).

(** The sine table: [K i = floor (2^32 * abs (sin (i + 1)))]. *)
Definition K : list Z :=
  [ 0xd76aa478; 0xe8c7b756; 0x242070db; 0xc1bdceee;
    0xf57c0faf; 0x4787c62a; 0xa8304613; 0xfd469501;
    0x698098d8; 0x8b44f7af; 0xffff5bb1; 0x895cd7be;
    0x6b901122; 0xfd987193; 0xa679438e; 0x49b40821;
    0xf61e2562; 0xc040b340; 0x265e5a51; 0xe9b6c7aa;
    0xd62f105d; 0x02441453; 0xd8a1e681; 0xe7d3fbc8;
    0x21e1cde6; 0xc33707d6; 0xf4d50d87; 0x455a14ed;
    0xa9e3e905; 0xfcefa3f8; 0x676f02d9; 0x8d2a4c8a;
    0xfffa3942; 0x8771f681; 0x6d9d6122; 0xfde5380c;
    0xa4beea44; 0x4bdecfa9; 0xf6bb4b60; 0xbebfbc70;
    0x289b7ec6; 0xeaa127fa; 0xd4ef3085; 0x04881d05;
    0xd9d4d039; 0xe6db99e5; 0x1fa27cf8; 0xc4ac5665;
    0xf4292244; 0x432aff97; 0xab9423a7; 0xfc93a039;
    0x655b59c3; 0x8f0ccc92; 0xffeff47d; 0x85845dd1;
    0x6fa87e4f; 0xfe2ce6e0; 0xa3014314; 0x4e0811a1;
    0xf7537e82; 0xbd3af235; 0x2ad7d2bb; 0xeb86d391 ].

(** The per-round left rotations. *)
Definition shifts : list Z :=
  [ 7; 12; 17; 22; 7; 12; 17; 22; 7; 12; 17; 22; 7; 12; 17; 22;
    5;  9; 14; 20; 5;  9; 14; 20; 5;  9; 14; 20; 5;  9; 14; 20;
    4; 11; 16; 23; 4; 11; 16; 23; 4; 11; 16; 23; 4; 11; 16; 23;
    6; 10; 15; 21; 6; 10; 15; 21; 6; 10; 15; 21; 6; 10; 15; 21 ].

(** The four chaining words A, B, C, D. *)
Record words := Words { wa : Z; wb : Z; wc : Z; wd : Z }.

Definition init : words :=
  Words 0x67452301 0xefcdab89 0x98badcfe 0x10325476.

(** [n] bytes of [x], least significant first. *)
Fixpoint le_bytes (n : nat) (x : Z) : list Z :=
  match n with
  | O => []
  | S n' => (x mod 256) :: le_bytes n' (x / 256)
  end.

(** The number whose little-endian bytes are [bs]. *)
Fixpoint le_word (bs : list Z) : Z :=
  match bs with
  | [] => 0
  | b :: bs' => b + 256 * le_word bs'
  end.

(** The message, a single 1 bit, zeros up to 56 modulo 64 bytes, and the
    bit length on 64 bits. *)
Definition pad (msg : list Z) : list Z :=
  let len := Z.of_nat (List.length msg) in
  let zeros := Z.to_nat ((55 - len) mod 64) in
  (msg ++ [0x80] ++ repeat 0 zeros ++ le_bytes 8 ((8 * len) mod 2 ^ 64))%list.

(** The first [n] pieces of [size] elements of [bs]. *)
Fixpoint pieces {A : Type} (size n : nat) (bs : list A) : list (list A) :=
  match n with
  | O => []
  | S n' => firstn size bs :: pieces size n' (skipn size bs)
  end.

Definition blocks (padded : list Z) : list (list Z) :=
  pieces 64 (List.length padded / 64) padded.

Definition block_words (block : list Z) : list Z :=
  map le_word (pieces 4 16 block).

(** One of the 64 operations of a block, on the message words [m]. *)
Definition step (m : list Z) (w : words) (i : Z) : words :=
  let '(Words a b c d) := w in
  let '(f, g) :=
    if i <? 16 then (Z.lor (Z.land b c) (Z.land (not32 b) d), i)
    else if i <? 32 then
      (Z.lor (Z.land d b) (Z.land (not32 d) c), (5 * i + 1) mod 16)
    else if i <? 48 then (Z.lxor (Z.lxor b c) d, (3 * i + 5) mod 16)
    else (Z.lxor c (Z.lor b (not32 d)), (7 * i) mod 16) in
  let n := Z.to_nat i in
  let f' := add32 (add32 (add32 f a) (nth n K 0)) (nth (Z.to_nat g) m 0) in
  Words d (add32 b (rotl32 f' (nth n shifts 0))) b c.

Definition rounds : list Z := map Z.of_nat (seq 0 64).

Definition process_block (w : words) (block : list Z) : words :=
  let r := fold_left (step (block_words block)) rounds w in
  Words (add32 (wa w) (wa r)) (add32 (wb w) (wb r))
        (add32 (wc w) (wc r)) (add32 (wd w) (wd r)).

Definition digest_bytes (w : words) : list Z :=
  (le_bytes 4 (wa w) ++ le_bytes 4 (wb w) ++
   le_bytes 4 (wc w) ++ le_bytes 4 (wd w))%list.

(** [hashlib.md5(msg).digest()] *)
Definition md5 (msg : list Z) : list Z :=
  digest_bytes (fold_left process_block (blocks (pad msg)) init).

Definition hex_char (d : Z) : ascii :=
  if d <? 10 then ascii_of_N (Z.to_N (48 + d))
  else ascii_of_N (Z.to_N (87 + d)).

(** [hashlib.md5(msg).hexdigest()] of the digest bytes [bs]. *)
Fixpoint hex_of_bytes (bs : list Z) : string :=
  match bs with
  | [] => EmptyString
  | b :: bs' =>
      String (hex_char (b / 16)) (String (hex_char (b mod 16))
             (hex_of_bytes bs'))
  end.

Definition hexdigest (msg : list Z) : string := hex_of_bytes (md5 msg).

End MD5.

(** ** [uuid.UUID]: construction from hexadecimal text and [str] *)

Module Uuid.

(** The value of one digit as [int(_, 16)] reads it. *)
Definition hex_val (c : ascii) : option Z :=
  let n := Z.of_N (N_of_ascii c) in
  if (48 <=? n) && (n <=? 57) then Some (n - 48)
  else if (97 <=? n) && (n <=? 102) then Some (n - 87)
  else if (65 <=? n) && (n <=? 70) then Some (n - 55)
  else None.

(** [int(s, 16)] continuing from the digits read so far; [None] is
    Python's [ValueError]. *)
Fixpoint int16 (acc : Z) (s : string) : option Z :=
  match s with
  | EmptyString => Some acc
  | String c s' =>
      match hex_val c with
      | Some d => int16 (16 * acc + d) s'
      | None => None
      end
  end.

(** [uuid.UUID(hex=hex).int].  The constructor first drops any "urn:",
    "uuid:", braces and hyphens, which a string of hexadecimal digits
    does not hold, then refuses every length but 32. *)
Definition UUID (hex : string) : option Z :=
  if (String.length hex =? 32)%nat then int16 0 hex else None.

(** The [k] lowest hexadecimal digits of [n], most significant first. *)
Fixpoint hex_digits (k : nat) (n : Z) : string :=
  match k with
  | O => EmptyString
  | S k' => hex_digits k' (n / 16) ++ String (MD5.hex_char (n mod 16)) ""
  end.

(** ['%032x' % n] for [0 <= n < 2^128]. *)
Definition format_032x (n : Z) : string := hex_digits 32 n.

(** [str(u)] for the UUID of integer value [n]. *)
Definition str (n : Z) : string :=
  let hex := format_032x n in
  substring 0 8 hex ++ "-" ++ substring 8 4 hex ++ "-" ++
  substring 12 4 hex ++ "-" ++ substring 16 4 hex ++ "-" ++
  substring 20 (String.length hex - 20) hex.

Definition is_lower_hex (c : ascii) : bool :=
  let n := Z.of_N (N_of_ascii c) in
  ((48 <=? n) && (n <=? 57)) || ((97 <=? n) && (n <=? 102)).

(** Every character of [s] from position [i] on is a hyphen when [i] is
    8, 13, 18 or 23 and a lower-case hexadecimal digit otherwise. *)
Fixpoint canonical_from (i : nat) (s : string) : bool :=
  match s with
  | EmptyString => true
  | String c s' =>
      (if existsb (Nat.eqb i) [8; 13; 18; 23]%nat
       then (c =? "-")%char else is_lower_hex c)
      && canonical_from (S i) s'
  end.

(** The canonical textual form 8-4-4-4-12 of a UUID: 36 characters. *)
Definition is_canonical (s : string) : bool :=
  (String.length s =? 36)%nat && canonical_from 0 s.

End Uuid.

(** ** Starlette's [Response]: the encoding of header values *)

Module Starlette.

(** [v.encode("latin-1")] succeeds, as [Response] needs of every header
    value: no character of [v] is above U+00FF, that is, no byte of its
    UTF-8 form is 0xC4 or more. *)
Definition latin1_encodable (v : string) : bool :=
  forallb (fun c => (N_of_ascii c <? 196)%N) (list_ascii_of_string v).

End Starlette.

(** ** The table [leads] and the models of the API *)

Definition bytes := list Byte.byte.

Inductive LeadState := PENDING | REACHED_OUT.

Module Lead.

(** A row of the table [leads]; [id] is the primary key. *)
Record t := Make {
  id : string;
  first_name : string;
  last_name : string;
  email : string;
  resume_filename : string;
  resume_data : bytes;
  state : LeadState
}.

Definition with_resume_filename (v : string) (r : t) : t :=
  Make (id r) (first_name r) (last_name r) (email r) v
       (resume_data r) (state r).

Definition with_state (v : LeadState) (r : t) : t :=
  Make (id r) (first_name r) (last_name r) (email r)
       (resume_filename r) (resume_data r) v.

End Lead.

Module LeadOut.

Record t := Make {
  id : string;
  first_name : string;
  last_name : string;
  email : string;
  resume_filename : string;
  state : LeadState
}.

(** [LeadOut.from_orm(lead)]: the fields of the same names. *)
Definition from_orm (lead : Lead.t) : t :=
  Make (Lead.id lead) (Lead.first_name lead) (Lead.last_name lead)
       (Lead.email lead) (Lead.resume_filename lead) (Lead.state lead).

End LeadOut.

Record LeadStateUpdate := { update_state : LeadState }.

Record UploadFile := { filename : string; content : bytes }.

(** [await resume.read()] *)
Definition read (resume : UploadFile) : bytes := content resume.

(** *** Configurations *)

Definition ATTORNEY_EMAIL : string := "attorney@yourfirm.com".
Definition INTERNAL_API_KEY : string := "SECRET_INTERNAL_KEY".

(** *** The ORM session

    An instance of the mapped class holds the mapped columns and, as any
    Python object, whatever other attribute is assigned to it.  Only the
    mapped columns are written by [db.commit()] and read back by
    [db.refresh(lead)]. *)

Record instance := {
  columns : Lead.t;
  unmapped : list (string * bytes)
}.

Definition load (r : Lead.t) : instance :=
  {| columns := r; unmapped := [] |}.

Definition set_state (v : LeadState) (o : instance) : instance :=
  {| columns := Lead.with_state v (columns o); unmapped := unmapped o |}.

Definition set_resume_filename (v : string) (o : instance) : instance :=
  {| columns := Lead.with_resume_filename v (columns o);
     unmapped := unmapped o |}.

(** [lead.name = v] for a [name] that is no column of the table. *)
Definition set_unmapped (name : string) (v : bytes) (o : instance)
  : instance :=
  {| columns := columns o; unmapped := (name, v) :: unmapped o |}.

Definition table := list Lead.t.

(** [db.query(Lead).filter(Lead.id == lead_id).first()] *)
Definition query_first (db : table) (lead_id : string) : option Lead.t :=
  find (fun r => (Lead.id r =? lead_id)%string) db.

(** [db.add(lead); db.commit()] for a new row. *)
Definition add_commit (db : table) (lead : Lead.t) : table :=
  (db ++ [lead])%list.

(** [db.commit()] after assignments to a loaded instance:
    UPDATE leads SET ... WHERE leads.id = <the instance's key>. *)
Definition commit (db : table) (o : instance) : table :=
  map (fun r => if (Lead.id r =? Lead.id (columns o))%string
                then columns o else r) db.

(** [db.refresh(lead)]: the columns as the table has them now; [None]
    when the row is gone (an exception in SQLAlchemy). *)
Definition refresh (db : table) (o : instance) : option instance :=
  match query_first db (Lead.id (columns o)) with
  | Some r => Some {| columns := r; unmapped := unmapped o |}
  | None => None
  end.

(** [db.query(Lead).order_by(Lead.id.desc()).all()]: text compares byte
    by byte. *)
Fixpoint insert_desc (r : Lead.t) (rs : list Lead.t) : list Lead.t :=
  match rs with
  | [] => [r]
  | x :: rs' =>
      if String.leb (Lead.id x) (Lead.id r) then r :: rs
      else x :: insert_desc r rs'
  end.

Definition order_by_id_desc (db : table) : list Lead.t :=
  fold_right insert_desc [] db.

(** *** The state of the service and the responses of its routes *)

Record Email := { to : string; subject : string; body : string }.

(** The rows of [leads] and the e-mails sent so far, oldest first. *)
Record world := { rows : table; outbox : list Email }.

Definition empty_world : world := {| rows := []; outbox := [] |}.

Inductive response :=
| Text (message : string)
| Json (lead : LeadOut.t)
| JsonList (leads : list LeadOut.t)
| Attachment (data : bytes) (content_disposition media_type : string)
| HTTPException (status_code : Z) (detail : string)
| ServerError.

Definition newline : string := String (ascii_of_N 10) "".

Definition create_uuid_from_string (val : string) : option string :=
  let hex_string := MD5.hexdigest (PyStr.encode val) in
  match Uuid.UUID hex_string with
  | Some u => Some (Uuid.str u)
  | None => None
  end.

(** Dependency: Auth.  [Some e] is the exception raised. *)
Definition get_api_key (api_key : option string) : option response :=
  match api_key with
  | Some k =>
      if (k =? INTERNAL_API_KEY)%string then None
      else Some (HTTPException 401 "Unauthorized")
  | None => Some (HTTPException 401 "Unauthorized")
  end.

(** Dummy Email Sender: what it prints is kept in the outbox. *)
Definition send_email (to subject body : string) (w : world) : world :=
  {| rows := rows w;
     outbox := (outbox w ++ [{| to := to; subject := subject;
                                body := body |}])%list |}.

(** Public endpoint: Submit a lead *)
Definition create_lead (first_name last_name email : string)
    (resume : UploadFile) (w : world) : world * response :=
  if negb (PyStr.endswith (PyStr.lower (filename resume)) ".pdf") then
    (w, Text "file error: only pdf file of resume is allowed.")
  else
    let email := PyStr.lower email in
    match create_uuid_from_string email with
    | None => (w, ServerError)
    | Some lead_id =>
        match query_first (rows w) lead_id with
        | Some _ =>
            (w, Text "you have already applied. you can update your resume")
        | None =>
            let file_data := read resume in
            let lead :=
              Lead.Make lead_id first_name last_name (PyStr.lower email)
                        (filename resume) file_data PENDING in
            let w := {| rows := add_commit (rows w) lead;
                        outbox := outbox w |} in
            match refresh (rows w) (load lead) with
            | None => (w, ServerError)
            | Some lead =>
                let w :=
                  send_email email "Thank you for your submission!"
                    ("Dear " ++ first_name ++ "," ++ newline ++ newline ++
                     "Thank you for submitting your lead. We will contact you soon."
                     ++ newline) w in
                let w :=
                  send_email ATTORNEY_EMAIL "New Lead Submitted"
                    ("Lead from " ++ first_name ++ " " ++ last_name ++ " (" ++
                     email ++ ") received.") w in
                (w, Json (LeadOut.from_orm (columns lead)))
            end
        end
    end.

(** Internal API: List all leads *)
Definition get_leads (w : world) : world * response :=
  (w, JsonList (map LeadOut.from_orm (order_by_id_desc (rows w)))).

(** Internal API: Get a specific lead *)
Definition get_lead (lead_id : string) (w : world) : world * response :=
  match query_first (rows w) lead_id with
  | None => (w, HTTPException 404 "Lead not found")
  | Some lead => (w, Json (LeadOut.from_orm lead))
  end.

(** Internal API: Download resume.  Building the [Response] encodes the
    header as Latin-1; a stored file name that cannot be so encoded makes
    the constructor raise, which the client sees as a server error. *)
Definition download_resume (lead_id : string) (w : world)
  : world * response :=
  match query_first (rows w) lead_id with
  | None => (w, HTTPException 404 "Lead not found")
  | Some lead =>
      let content_disposition :=
        "attachment; filename=" ++ String (ascii_of_N 34) "" ++
        Lead.resume_filename lead ++ String (ascii_of_N 34) "" in
      (w, if Starlette.latin1_encodable content_disposition
          then Attachment (Lead.resume_data lead) content_disposition
                 "application/pdf"
          else ServerError)
  end.

(** Internal API: update resume *)
Definition update_resume (lead_id : string) (resume : UploadFile)
    (w : world) : world * response :=
  match query_first (rows w) lead_id with
  | None => (w, HTTPException 404 "Lead not found")
  | Some lead =>
      let lead := load lead in
      let lead := set_state PENDING lead in
      let lead := set_resume_filename (filename resume) lead in
      let file_data := read resume in
      let lead := set_unmapped "resume_date" file_data lead in
      let w := {| rows := commit (rows w) lead; outbox := outbox w |} in
      match refresh (rows w) lead with
      | None => (w, ServerError)
      | Some lead => (w, Json (LeadOut.from_orm (columns lead)))
      end
  end.

(** Internal API: Update lead state *)
Definition update_lead_state (lead_id : string) (update : LeadStateUpdate)
    (w : world) : world * response :=
  match query_first (rows w) lead_id with
  | None => (w, HTTPException 404 "Lead not found")
  | Some lead =>
      let lead := load lead in
      let lead := set_state (update_state update) lead in
      let w := {| rows := commit (rows w) lead; outbox := outbox w |} in
      match refresh (rows w) lead with
      | None => (w, ServerError)
      | Some lead => (w, Json (LeadOut.from_orm (columns lead)))
      end
  end.

(** *** The routes

    A request names its route and carries the route's arguments; the
    internal routes also carry the value of the header X-API-Key, if any.
    The dependency [get_api_key] of an internal route runs before its
    handler. *)

Inductive request :=
| POST_leads (first_name last_name email : string) (resume : UploadFile)
| GET_leads (api_key : option string)
| GET_lead (api_key : option string) (lead_id : string)
| GET_lead_resume (api_key : option string) (lead_id : string)
| PUT_lead_resume (api_key : option string) (lead_id : string)
    (resume : UploadFile)
| PUT_lead_state (api_key : option string) (lead_id : string)
    (update : LeadStateUpdate).

Definition depends_api_key (api_key : option string)
    (handler : world -> world * response) (w : world) : world * response :=
  match get_api_key api_key with
  | Some exception => (w, exception)
  | None => handler w
  end.

(** The function a route is bound to, on the route's arguments. *)
Definition handler (r : request) : world -> world * response :=
  match r with
  | POST_leads first_name last_name email resume =>
      create_lead first_name last_name email resume
  | GET_leads _ => get_leads
  | GET_lead _ lead_id => get_lead lead_id
  | GET_lead_resume _ lead_id => download_resume lead_id
  | PUT_lead_resume _ lead_id resume => update_resume lead_id resume
  | PUT_lead_state _ lead_id update => update_lead_state lead_id update
  end.

(** The credential a request presents; [None] for the public route, which
    has no dependency on [get_api_key]. *)
Definition credential (r : request) : option (option string) :=
  match r with
  | POST_leads _ _ _ _ => None
  | GET_leads k | GET_lead k _ | GET_lead_resume k _
  | PUT_lead_resume k _ _ | PUT_lead_state k _ _ => Some k
  end.

Definition app (w : world) (r : request) : world * response :=
  match credential r with
  | Some api_key => depends_api_key api_key (handler r) w
  | None => handler r w
  end.

(** The service over a sequence of requests: the final state and the
    responses, in the order of the requests. *)
Fixpoint serve (w : world) (rs : list request) : world * list response :=
  match rs with
  | [] => (w, [])
  | r :: rs' =>
      let '(w1, out) := app w r in
      let '(w2, outs) := serve w1 rs' in
      (w2, out :: outs)
  end.

(** The ids of the leads that the responses to [rs] report as created. *)
Fixpoint created_ids (rs : list request) (outs : list response)
  : list string :=
  match rs, outs with
  | POST_leads _ _ _ _ :: rs', Json lead :: outs' =>
      LeadOut.id lead :: created_ids rs' outs'
  | _ :: rs', _ :: outs' => created_ids rs' outs'
  | _, _ => []
  end.

(** The id [create_lead] derives for the form field [email] as the client
    sent it: the field is validated as [EmailStr] (line 91), the handler
    lower-cases what it receives (line 97) and hashes it (line 98).  [None]
    when the field is refused, in which case the handler does not run. *)
Definition submitted_lead_id (further : string -> bool) (value : string)
  : option string :=
  match Pydantic.validate_email further value with
  | Some email => create_uuid_from_string (PyStr.lower email)
  | None => None
  end.


(** *** The messages of the handlers and a sample state *)

Definition file_error : response :=
  Text "file error: only pdf file of resume is allowed.".

Definition not_found : response := HTTPException 404 "Lead not found".

Definition unauthorized : response := HTTPException 401 "Unauthorized".

Definition already_applied : response :=
  Text "you have already applied. you can update your resume".

Definition pdf_bytes : bytes := list_byte_of_string "%PDF-1.4".

Definition jane : Lead.t :=
  Lead.Make "0cba00ca-3da1-b283-a572-87bcceb17e35" "Jane" "Doe"
            "jane.doe@example.com" "resume.pdf" pdf_bytes REACHED_OUT.

Definition jane_world : world := {| rows := [jane]; outbox := [] |}.

(** *** Notions the properties are stated with *)

(** [a] may stand before [b] in a list by id descending. *)
Definition id_desc (a b : Lead.t) : Prop :=
  String.leb (Lead.id b) (Lead.id a) = true.


(** The id a response reports as created by the request it answers. *)
Definition created_by (r : request) (out : response) : list string :=
  created_ids [r] [out].

(** The values of a byte. *)
Definition is_byte (b : Z) : Prop := 0 <= b < 256.

(** The columns no handler assigns after the row is created. *)
Definition fixed_columns (r : Lead.t)
  : string * string * string * string * bytes :=
  (Lead.id r, Lead.first_name r, Lead.last_name r, Lead.email r,
   Lead.resume_data r).

(** A row as [create_lead] makes it: the e-mail is in lower case and the
    id is the one derived from it. *)
Definition derived_row (r : Lead.t) : Prop :=
  PyStr.lower (Lead.email r) = Lead.email r
  /\ create_uuid_from_string (Lead.email r) = Some (Lead.id r).

(** The addressees of the two e-mails of each row, in the order of the
    rows. *)
Definition recipients (db : table) : list string :=
  flat_map (fun r => [Lead.email r; ATTORNEY_EMAIL]) db.

(** 32 characters cut 8-4-4-4-12 and joined by hyphens. *)
Definition hyphenated (hex : string) : string :=
  substring 0 8 hex ++ "-" ++ substring 8 4 hex ++ "-" ++
  substring 12 4 hex ++ "-" ++ substring 16 4 hex ++ "-" ++
  substring 20 12 hex.



(** What the service keeps between requests: the key of the table is
    unique, every row is as [create_lead] makes it, and the outbox holds
    the two e-mails of each row. *)
Definition consistent (w : world) : Prop :=
  NoDup (map Lead.id (rows w))
  /\ Forall derived_row (rows w)
  /\ map to (outbox w) = recipients (rows w).

(** * Properties *)

(** ** The digest and the strings *)

Example md5_empty :
  MD5.hexdigest (PyStr.encode "") = "d41d8cd98f00b204e9800998ecf8427e".
Proof. vm_compute. reflexivity. Qed.

Example md5_abc :
  MD5.hexdigest (PyStr.encode "abc") = "900150983cd24fb0d6963f7d28e17f72".
Proof. vm_compute. reflexivity. Qed.

Example md5_two_blocks :
  MD5.hexdigest (PyStr.encode
    "AAAAAAAAAAAAAAAAAAAAAAAAAAAAAAAAAAAAAAAAAAAAAAAAAAAAAAAAAAAAAAAAAAAAAA")
  = "689158e3ab606ff0b6e05b235013ab1f".
Proof. vm_compute. reflexivity. Qed.

Example create_uuid_jane :
  create_uuid_from_string "jane.doe@example.com"
  = Some "0cba00ca-3da1-b283-a572-87bcceb17e35".
Proof. vm_compute. reflexivity. Qed.

Section StringFacts.

Lemma lower_ascii_idem (c : ascii) :
  PyStr.lower_ascii (PyStr.lower_ascii c) = PyStr.lower_ascii c.
Proof.
  destruct c as [[] [] [] [] [] [] [] []]; reflexivity.
Qed.

Lemma lower_idem (s : string) : PyStr.lower (PyStr.lower s) = PyStr.lower s.
Proof.
  induction s as [|c s IH]; simpl; [reflexivity|].
  now rewrite lower_ascii_idem, IH.
Qed.

Lemma lower_app (s t : string) :
  PyStr.lower (s ++ t) = PyStr.lower s ++ PyStr.lower t.
Proof.
  induction s as [|c s IH]; simpl; [reflexivity|].
  now rewrite IH.
Qed.

Lemma string_length_app (s t : string) :
  String.length (s ++ t) = (String.length s + String.length t)%nat.
Proof.
  induction s as [|c s IH]; simpl; [reflexivity|].
  now rewrite IH.
Qed.

Lemma substring_all (s : string) : substring 0 (String.length s) s = s.
Proof.
  induction s as [|c s IH]; simpl; [reflexivity|].
  now rewrite IH.
Qed.

Lemma substring_skip (s t : string) (m : nat) :
  substring (String.length s) m (s ++ t) = substring 0 m t.
Proof.
  induction s as [|c s IH]; simpl; [reflexivity|].
  exact IH.
Qed.

(** A string ends with whatever was appended to it. *)
Lemma endswith_app (s t : string) : PyStr.endswith (s ++ t) t = true.
Proof.
  unfold PyStr.endswith.
  rewrite string_length_app.
  replace (String.length s + String.length t - String.length t)%nat
    with (String.length s) by lia.
  rewrite substring_skip, substring_all, String.eqb_refl.
  rewrite andb_true_r.
  apply Nat.leb_le; lia.
Qed.

End StringFacts.

(** ** The table *)

Section TableFacts.

Lemma query_first_id (db : table) (k : string) (l : Lead.t) :
  query_first db k = Some l -> Lead.id l = k.
Proof.
  unfold query_first; intros H.
  apply find_some in H as [_ H].
  now apply String.eqb_eq.
Qed.

Lemma query_first_In (db : table) (k : string) (l : Lead.t) :
  query_first db k = Some l -> In l db.
Proof.
  unfold query_first; intros H.
  now apply find_some in H as [H _].
Qed.

(** No row has the key exactly when the query finds nothing. *)
Lemma query_first_None (db : table) (k : string) :
  query_first db k = None <-> ~ In k (map Lead.id db).
Proof.
  unfold query_first.
  induction db as [|r db IH]; simpl.
  - tauto.
  - destruct (String.eqb_spec (Lead.id r) k) as [E|E].
    + split; [discriminate|]. intros H; exfalso; apply H; now left.
    + rewrite IH. tauto.
Qed.

Lemma query_first_add_commit (db : table) (l : Lead.t) :
  query_first db (Lead.id l) = None ->
  query_first (add_commit db l) (Lead.id l) = Some l.
Proof.
  unfold query_first, add_commit.
  induction db as [|r db IH]; simpl.
  - now rewrite String.eqb_refl.
  - destruct (Lead.id r =? Lead.id l)%string; [discriminate|exact IH].
Qed.

Lemma query_first_add_commit_other (db : table) (l : Lead.t) (k : string) :
  k <> Lead.id l ->
  query_first (add_commit db l) k = query_first db k.
Proof.
  unfold query_first, add_commit; intros Hk.
  induction db as [|r db IH]; simpl.
  - destruct (String.eqb_spec (Lead.id l) k); congruence.
  - now rewrite IH.
Qed.

Lemma query_first_commit (db : table) (o : instance) (l : Lead.t) :
  query_first db (Lead.id (columns o)) = Some l ->
  query_first (commit db o) (Lead.id (columns o)) = Some (columns o).
Proof.
  unfold query_first, commit.
  induction db as [|r db IH]; simpl; [discriminate|].
  destruct (Lead.id r =? Lead.id (columns o))%string eqn:E.
  - intros _. now rewrite String.eqb_refl.
  - rewrite E. exact IH.
Qed.

Lemma query_first_commit_other (db : table) (o : instance) (k : string) :
  k <> Lead.id (columns o) ->
  query_first (commit db o) k = query_first db k.
Proof.
  unfold query_first, commit; intros Hk.
  induction db as [|r db IH]; simpl; [reflexivity|].
  destruct (String.eqb_spec (Lead.id r) (Lead.id (columns o))) as [E|E].
  - destruct (String.eqb_spec (Lead.id (columns o)) k) as [E1|E1];
      [congruence|].
    destruct (String.eqb_spec (Lead.id r) k) as [E2|E2];
      [congruence|exact IH].
  - now rewrite IH.
Qed.

(** An update changes no key and neither adds nor removes a row. *)
Lemma commit_ids (db : table) (o : instance) :
  map Lead.id (commit db o) = map Lead.id db.
Proof.
  unfold commit.
  induction db as [|r db IH]; simpl; [reflexivity|].
  rewrite IH.
  destruct (String.eqb_spec (Lead.id r) (Lead.id (columns o))) as [E|E];
    congruence.
Qed.


End TableFacts.

(** ** Intake: [create_lead] *)

Section Intake.

Variables (first_name last_name email : string) (resume : UploadFile).
Variable w : world.

Lemma create_lead_non_pdf :
  PyStr.endswith (PyStr.lower (filename resume)) ".pdf" = false ->
  create_lead first_name last_name email resume w = (w, file_error).
Proof.
  intros H. unfold create_lead. now rewrite H.
Qed.

Lemma create_lead_existing (lead_id : string) (existing : Lead.t) :
  PyStr.endswith (PyStr.lower (filename resume)) ".pdf" = true ->
  create_uuid_from_string (PyStr.lower email) = Some lead_id ->
  query_first (rows w) lead_id = Some existing ->
  create_lead first_name last_name email resume w = (w, already_applied).
Proof.
  intros Hpdf Hid Hq. unfold create_lead.
  now rewrite Hpdf, Hid, Hq.
Qed.

Lemma create_lead_new (lead_id : string) :
  PyStr.endswith (PyStr.lower (filename resume)) ".pdf" = true ->
  create_uuid_from_string (PyStr.lower email) = Some lead_id ->
  query_first (rows w) lead_id = None ->
  let lead :=
    Lead.Make lead_id first_name last_name (PyStr.lower email)
              (filename resume) (content resume) PENDING in
  exists thanks alert,
    create_lead first_name last_name email resume w
    = ({| rows := (rows w ++ [lead])%list;
          outbox := (outbox w ++ [thanks; alert])%list |},
       Json (LeadOut.from_orm lead))
    /\ to thanks = PyStr.lower email
    /\ to alert = ATTORNEY_EMAIL
    /\ query_first (rows w ++ [lead])%list lead_id = Some lead.
Proof.
  intros Hpdf Hid Hq lead.
  assert (Hnew : query_first (add_commit (rows w) lead) lead_id = Some lead).
  { apply (query_first_add_commit (rows w) lead). exact Hq. }
  do 2 eexists.
  unfold create_lead.
  rewrite Hpdf, Hid, Hq; cbn [negb].
  rewrite lower_idem.
  unfold refresh, load, read; cbn [columns Lead.id rows].
  fold lead. rewrite Hnew.
  unfold send_email; cbn [rows outbox columns].
  rewrite <- app_assoc; cbn [List.app].
  repeat split; try reflexivity. exact Hnew.
Qed.

End Intake.

(** C4: a submission whose file name, in lower case, does not end in ".pdf"
    gets the file-type message and nothing else happens: the table and the
    outbox are the ones before the call.  A name that ends in ".PDF" or
    ".Pdf" passes the test of the ending. *)
Theorem create_lead_rejects_non_pdf :
  (forall first_name last_name email resume w,
      PyStr.endswith (PyStr.lower (filename resume)) ".pdf" = false ->
      create_lead first_name last_name email resume w = (w, file_error))
  /\ (forall stem,
         PyStr.endswith (PyStr.lower (stem ++ ".PDF")) ".pdf" = true
         /\ PyStr.endswith (PyStr.lower (stem ++ ".Pdf")) ".pdf" = true).
Proof.
  split.
  - intros first_name last_name email resume w H.
    now apply create_lead_non_pdf.
  - intros stem. rewrite !lower_app.
    split; apply (endswith_app (PyStr.lower stem) ".pdf").
Qed.

Lemma create_lead_rejects_non_pdf_witness :
  create_lead "Jane" "Doe" "Jane.Doe@Example.com"
    {| filename := "resume.docx"; content := pdf_bytes |} jane_world
  = (jane_world, file_error).
Proof.
  apply (proj1 create_lead_rejects_non_pdf). reflexivity.
Defined.

(** C3, as the code has it: when the lead of the derived id is already in
    the table, the call changes neither the table nor the outbox, whatever
    the file is; and when moreover the file name passes the ".pdf" test the
    response is the "already applied" message. *)
Theorem create_lead_duplicate :
  forall first_name last_name email resume w lead_id existing,
    create_uuid_from_string (PyStr.lower email) = Some lead_id ->
    query_first (rows w) lead_id = Some existing ->
    fst (create_lead first_name last_name email resume w) = w
    /\ (PyStr.endswith (PyStr.lower (filename resume)) ".pdf" = true ->
        create_lead first_name last_name email resume w
        = (w, already_applied)).
Proof.
  intros first_name last_name email resume w lead_id existing Hid Hq.
  destruct (PyStr.endswith (PyStr.lower (filename resume)) ".pdf") eqn:Hpdf.
  - rewrite (create_lead_existing _ _ _ _ _ _ _ Hpdf Hid Hq).
    split; reflexivity.
  - rewrite (create_lead_non_pdf _ _ _ _ _ Hpdf).
    split; [reflexivity|discriminate].
Qed.

Lemma create_lead_duplicate_witness :
  let resume := {| filename := "cv.PDF"; content := [] |} in
  create_lead "Janet" "Roe" "Jane.Doe@Example.com" resume jane_world
  = (jane_world, already_applied).
Proof.
  apply (create_lead_duplicate "Janet" "Roe" "Jane.Doe@Example.com"
           {| filename := "cv.PDF"; content := [] |} jane_world
           "0cba00ca-3da1-b283-a572-87bcceb17e35" jane).
  - vm_compute. reflexivity.
  - reflexivity.
  - reflexivity.
Defined.

(** C3 as stated fails: the lead of the derived id is in the table, yet the
    response is the file-type message, not "already applied", because the
    file name is tested first. *)
Lemma create_lead_duplicate_non_pdf :
  let resume := {| filename := "resume.docx"; content := pdf_bytes |} in
  create_uuid_from_string (PyStr.lower "Jane.Doe@Example.com")
  = Some (Lead.id jane)
  /\ query_first (rows jane_world) (Lead.id jane) = Some jane
  /\ create_lead "Jane" "Doe" "Jane.Doe@Example.com" resume jane_world
     = (jane_world, file_error)
  /\ create_lead "Jane" "Doe" "Jane.Doe@Example.com" resume jane_world
     <> (jane_world, already_applied).
Proof.
  repeat split; try (vm_compute; reflexivity).
  vm_compute. discriminate.
Qed.



(** ** The internal routes *)

Section Updates.

Variables (w : world) (lead_id : string) (l : Lead.t).
Hypothesis present : query_first (rows w) lead_id = Some l.

(** What [update_resume] does to a row that is there: the file name and
    the state are written, the new bytes land in an attribute of the
    instance that is no column, and the stored bytes stay. *)
Lemma update_resume_found (resume : UploadFile) :
  let l' :=
    Lead.Make (Lead.id l) (Lead.first_name l) (Lead.last_name l)
              (Lead.email l) (filename resume) (Lead.resume_data l)
              PENDING in
  let o := {| columns := l';
              unmapped := [("resume_date", content resume)] |} in
  update_resume lead_id resume w
  = ({| rows := commit (rows w) o; outbox := outbox w |},
     Json (LeadOut.from_orm l'))
  /\ query_first (commit (rows w) o) lead_id = Some l'.
Proof.
  intros l' o.
  pose proof (query_first_id _ _ _ present) as Hid.
  assert (Hq : query_first (commit (rows w) o) lead_id = Some l').
  { rewrite <- Hid. apply (query_first_commit (rows w) o l).
    cbn [columns o l' Lead.id]. now rewrite Hid. }
  split; [|exact Hq].
  unfold update_resume. rewrite present.
  unfold refresh, load, set_state, set_resume_filename, set_unmapped, read,
    Lead.with_state, Lead.with_resume_filename.
  cbn [columns unmapped rows outbox Lead.id Lead.first_name Lead.last_name
       Lead.email Lead.resume_filename Lead.resume_data Lead.state].
  fold l'. fold o. rewrite Hid, Hq. reflexivity.
Qed.

Lemma update_lead_state_found (update : LeadStateUpdate) :
  let l' := Lead.with_state (update_state update) l in
  let o := {| columns := l'; unmapped := [] |} in
  update_lead_state lead_id update w
  = ({| rows := commit (rows w) o; outbox := outbox w |},
     Json (LeadOut.from_orm l'))
  /\ query_first (commit (rows w) o) lead_id = Some l'.
Proof.
  intros l' o.
  pose proof (query_first_id _ _ _ present) as Hid.
  assert (Hq : query_first (commit (rows w) o) lead_id = Some l').
  { rewrite <- Hid. apply (query_first_commit (rows w) o l).
    cbn [columns o l' Lead.id Lead.with_state]. now rewrite Hid. }
  split; [|exact Hq].
  unfold update_lead_state. rewrite present.
  unfold refresh, load, set_state.
  cbn [columns unmapped rows outbox].
  fold l'. fold o.
  replace (Lead.id l') with lead_id by (symmetry; exact Hid).
  rewrite Hq. reflexivity.
Qed.

End Updates.

(** C1 on the code: on the state that holds Jane's lead (REACHED_OUT, bytes
    [pdf_bytes]), replacing the resume by other bytes under the name
    "resume2.pdf" writes the name, resets the state to PENDING and returns
    the updated representation, but the bytes the table holds, and the
    download serves, are still the old ones. *)
Theorem update_resume_keeps_stored_bytes :
  let resume := {| filename := "resume2.pdf";
                   content := list_byte_of_string "%PDF-1.7 second" |} in
  let w' := fst (update_resume (Lead.id jane) resume jane_world) in
  content resume <> Lead.resume_data jane
  /\ snd (update_resume (Lead.id jane) resume jane_world)
     = Json (LeadOut.Make (Lead.id jane) "Jane" "Doe" "jane.doe@example.com"
               "resume2.pdf" PENDING)
  /\ query_first (rows w') (Lead.id jane)
     = Some (Lead.Make (Lead.id jane) "Jane" "Doe" "jane.doe@example.com"
               "resume2.pdf" (Lead.resume_data jane) PENDING)
  /\ exists disposition,
       download_resume (Lead.id jane) w'
       = (w', Attachment (Lead.resume_data jane) disposition
                "application/pdf").
Proof.
  cbv zeta. split; [discriminate|].
  split; [reflexivity|]. split; [reflexivity|].
  eexists. reflexivity.
Qed.



(** C7: each of [get_lead], [download_resume], [update_resume] and
    [update_lead_state] answers 404 "Lead not found" exactly when no row of
    the table has the id, and then the state after the call is the state
    before it. *)
Theorem not_found_iff_absent :
  forall w lead_id resume update,
    let absent := ~ In lead_id (map Lead.id (rows w)) in
    (snd (get_lead lead_id w) = not_found <-> absent)
    /\ (snd (download_resume lead_id w) = not_found <-> absent)
    /\ (snd (update_resume lead_id resume w) = not_found <-> absent)
    /\ (snd (update_lead_state lead_id update w) = not_found <-> absent)
    /\ (absent ->
        fst (get_lead lead_id w) = w
        /\ fst (download_resume lead_id w) = w
        /\ fst (update_resume lead_id resume w) = w
        /\ fst (update_lead_state lead_id update w) = w).
Proof.
  intros w lead_id resume update absent. subst absent.
  rewrite <- query_first_None.
  destruct (query_first (rows w) lead_id) as [l|] eqn:Hq.
  - destruct (update_resume_found w lead_id l Hq resume) as [E1 _].
    destruct (update_lead_state_found w lead_id l Hq update) as [E2 _].
    rewrite E1, E2. unfold get_lead, download_resume. rewrite Hq.
    cbn [fst snd].
    destruct (Starlette.latin1_encodable _);
      repeat split; intros; discriminate.
  - unfold get_lead, download_resume, update_resume, update_lead_state.
    rewrite Hq. cbn [fst snd].
    repeat split; reflexivity.
Qed.

Lemma not_found_iff_absent_witness :
  fst (update_resume "no-such-id"
         {| filename := "x.pdf"; content := [] |} jane_world) = jane_world
  /\ snd (update_resume "no-such-id"
            {| filename := "x.pdf"; content := [] |} jane_world) = not_found.
Proof.
  pose proof (not_found_iff_absent jane_world "no-such-id"
                {| filename := "x.pdf"; content := [] |}
                {| update_state := PENDING |}) as (_ & _ & H3 & _ & H5).
  assert (A : ~ In "no-such-id" (map Lead.id (rows jane_world))).
  { simpl. intros [H|[]]. discriminate. }
  split; [apply (H5 A) | apply (proj2 H3 A)].
Defined.

(** C8: a request to an internal route whose header is missing or differs
    from INTERNAL_API_KEY is answered 401 "Unauthorized" with the state
    untouched, and the answer is the same on every state, so the table was
    not consulted; with the key itself the answer is the handler's. *)
Theorem internal_routes_need_api_key :
  forall r api_key,
    credential r = Some api_key ->
    (api_key <> Some INTERNAL_API_KEY ->
     forall w, app w r = (w, unauthorized))
    /\ (api_key = Some INTERNAL_API_KEY ->
        forall w, app w r = handler r w).
Proof.
  intros r api_key Hc. unfold app, depends_api_key. rewrite Hc.
  split.
  - intros Hk w. destruct api_key as [k|]; simpl; [|reflexivity].
    destruct (String.eqb_spec k INTERNAL_API_KEY) as [E|E];
      [congruence|reflexivity].
  - intros -> w. reflexivity.
Qed.

Lemma internal_routes_need_api_key_witness :
  (forall w, app w (PUT_lead_state (Some "secret_internal_key")
                      (Lead.id jane) {| update_state := PENDING |})
             = (w, unauthorized))
  /\ (forall w, app w (GET_leads None) = (w, unauthorized)).
Proof.
  split.
  - apply (internal_routes_need_api_key
             (PUT_lead_state (Some "secret_internal_key") (Lead.id jane)
                {| update_state := PENDING |})
             (Some "secret_internal_key") eq_refl).
    discriminate.
  - apply (internal_routes_need_api_key (GET_leads None) None eq_refl).
    discriminate.
Defined.

(** C10: on a lead that is there, [update_resume] leaves its id, first
    name, last name and e-mail as they were, and [update_lead_state] leaves
    every column but the state as it was; both leave the row of every other
    id, the ids of the table and the outbox as they were. *)
Theorem updates_touch_only_their_fields :
  forall w lead_id l resume update,
    query_first (rows w) lead_id = Some l ->
    let w1 := fst (update_resume lead_id resume w) in
    let w2 := fst (update_lead_state lead_id update w) in
    (exists l1,
        query_first (rows w1) lead_id = Some l1
        /\ Lead.id l1 = Lead.id l
        /\ Lead.first_name l1 = Lead.first_name l
        /\ Lead.last_name l1 = Lead.last_name l
        /\ Lead.email l1 = Lead.email l)
    /\ (exists l2,
           query_first (rows w2) lead_id = Some l2
           /\ Lead.id l2 = Lead.id l
           /\ Lead.first_name l2 = Lead.first_name l
           /\ Lead.last_name l2 = Lead.last_name l
           /\ Lead.email l2 = Lead.email l
           /\ Lead.resume_filename l2 = Lead.resume_filename l
           /\ Lead.resume_data l2 = Lead.resume_data l)
    /\ (forall other, other <> lead_id ->
          query_first (rows w1) other = query_first (rows w) other
          /\ query_first (rows w2) other = query_first (rows w) other)
    /\ map Lead.id (rows w1) = map Lead.id (rows w)
    /\ map Lead.id (rows w2) = map Lead.id (rows w)
    /\ outbox w1 = outbox w /\ outbox w2 = outbox w.
Proof.
  intros w lead_id l resume update Hq w1 w2.
  pose proof (query_first_id _ _ _ Hq) as Hid.
  destruct (update_resume_found w lead_id l Hq resume) as [E1 Q1].
  destruct (update_lead_state_found w lead_id l Hq update) as [E2 Q2].
  subst w1 w2. rewrite E1, E2. cbn [fst rows outbox].
  split; [eexists; split; [exact Q1|repeat split]|].
  split; [eexists; split; [exact Q2|repeat split]|].
  split.
  - intros other Hne.
    split; apply query_first_commit_other;
      cbn [columns Lead.id Lead.with_state]; congruence.
  - rewrite !commit_ids. repeat split.
Qed.

Lemma updates_touch_only_their_fields_witness :
  exists l1 l2,
    query_first
      (rows (fst (update_resume (Lead.id jane)
                    {| filename := "resume2.pdf"; content := [] |}
                    jane_world))) (Lead.id jane) = Some l1
    /\ Lead.email l1 = Lead.email jane
    /\ query_first
         (rows (fst (update_lead_state (Lead.id jane)
                       {| update_state := PENDING |} jane_world)))
         (Lead.id jane) = Some l2
    /\ Lead.resume_data l2 = Lead.resume_data jane.
Proof.
  destruct (updates_touch_only_their_fields jane_world (Lead.id jane) jane
              {| filename := "resume2.pdf"; content := [] |}
              {| update_state := PENDING |} eq_refl)
    as ((l1 & Q1 & _ & _ & _ & M1) & (l2 & Q2 & _ & _ & _ & _ & _ & D2) & _).
  exists l1, l2. repeat split; assumption.
Defined.

(** ** Listing: [get_leads] *)

Section Ordering.

Lemma insert_desc_perm (r : Lead.t) (rs : list Lead.t) :
  Permutation (insert_desc r rs) (r :: rs).
Proof.
  induction rs as [|x rs IH]; simpl; [reflexivity|].
  destruct (String.leb (Lead.id x) (Lead.id r)); [reflexivity|].
  rewrite IH. apply perm_swap.
Qed.

Lemma order_by_id_desc_perm (db : table) :
  Permutation (order_by_id_desc db) db.
Proof.
  induction db as [|r db IH]; simpl; [reflexivity|].
  rewrite insert_desc_perm. now constructor.
Qed.

Lemma insert_desc_hd (x r : Lead.t) (rs : list Lead.t) :
  id_desc x r -> HdRel id_desc x rs -> HdRel id_desc x (insert_desc r rs).
Proof.
  intros Hxr Hhd.
  destruct rs as [|y rs]; simpl; [now constructor|].
  destruct (String.leb (Lead.id y) (Lead.id r)); constructor;
    [exact Hxr|].
  now inversion Hhd.
Qed.

Lemma insert_desc_sorted (r : Lead.t) (rs : list Lead.t) :
  Sorted id_desc rs -> Sorted id_desc (insert_desc r rs).
Proof.
  induction rs as [|x rs IH]; intros Hs; simpl.
  - repeat constructor.
  - inversion Hs as [|? ? Hs' Hhd]; subst.
    destruct (String.leb (Lead.id x) (Lead.id r)) eqn:E.
    + constructor; [exact Hs|]. constructor. exact E.
    + constructor; [now apply IH|].
      apply insert_desc_hd; [|exact Hhd].
      unfold id_desc.
      destruct (String.leb_total (Lead.id r) (Lead.id x)) as [H|H];
        congruence.
Qed.

Lemma order_by_id_desc_sorted (db : table) :
  Sorted id_desc (order_by_id_desc db).
Proof.
  induction db as [|r db IH]; simpl; [constructor|].
  now apply insert_desc_sorted.
Qed.



End Ordering.

(** ** The history of the table *)

Section History.

Lemma created_ids_cons r rs out outs :
  created_ids (r :: rs) (out :: outs)
  = (created_by r out ++ created_ids rs outs)%list.
Proof.
  unfold created_by.
  destruct r; try reflexivity.
  destruct out; reflexivity.
Qed.

(** One request: the ids of the table grow by the id the response reports,
    and stay without repetition. *)
Lemma app_ids (w : world) (r : request) :
  map Lead.id (rows (fst (app w r)))
  = (map Lead.id (rows w) ++ created_by r (snd (app w r)))%list
  /\ (NoDup (map Lead.id (rows w)) ->
      NoDup (map Lead.id (rows (fst (app w r))))).
Proof.
  assert (Same : forall out,
             created_by r out = [] ->
             map Lead.id (rows w)
             = (map Lead.id (rows w) ++ created_by r out)%list
             /\ (NoDup (map Lead.id (rows w)) ->
                 NoDup (map Lead.id (rows w)))).
  { intros out ->. now rewrite app_nil_r. }
  unfold app.
  destruct (credential r) as [k|] eqn:Hc.
  - unfold depends_api_key.
    destruct (get_api_key k); [apply Same; now destruct r|].
    destruct r as [? ? ? ?|?|? lead_id|? lead_id|? lead_id resume
                  |? lead_id update]; try discriminate;
      cbn [handler]; unfold created_by; cbn [created_ids].
    + rewrite app_nil_r. split; [reflexivity|exact (fun H => H)].
    + rewrite app_nil_r. unfold get_lead.
      destruct (query_first (rows w) lead_id);
        (split; [reflexivity|exact (fun H => H)]).
    + rewrite app_nil_r. unfold download_resume.
      destruct (query_first (rows w) lead_id);
        (split; [reflexivity|exact (fun H => H)]).
    + rewrite app_nil_r.
      destruct (query_first (rows w) lead_id) as [l|] eqn:Hq.
      * destruct (update_resume_found w lead_id l Hq resume) as [E _].
        rewrite E. cbn [fst rows]. rewrite commit_ids.
        split; [reflexivity|exact (fun H => H)].
      * unfold update_resume. rewrite Hq.
        split; [reflexivity|exact (fun H => H)].
    + rewrite app_nil_r.
      destruct (query_first (rows w) lead_id) as [l|] eqn:Hq.
      * destruct (update_lead_state_found w lead_id l Hq update) as [E _].
        rewrite E. cbn [fst rows]. rewrite commit_ids.
        split; [reflexivity|exact (fun H => H)].
      * unfold update_lead_state. rewrite Hq.
        split; [reflexivity|exact (fun H => H)].
  - destruct r as [first_name last_name email resume| | | | |];
      try discriminate.
    cbn [handler].
    destruct (PyStr.endswith (PyStr.lower (filename resume)) ".pdf") eqn:Hp.
    + destruct (create_uuid_from_string (PyStr.lower email))
        as [lead_id|] eqn:Hid.
      * destruct (query_first (rows w) lead_id) as [l|] eqn:Hq.
        -- rewrite (create_lead_existing _ _ _ _ _ _ _ Hp Hid Hq).
           now apply Same.
        -- destruct (create_lead_new first_name last_name email resume
                       w lead_id Hp Hid Hq) as (e1 & e2 & E & _).
           rewrite E. cbn [fst snd rows].
           unfold created_by; cbn [created_ids LeadOut.id LeadOut.from_orm].
           rewrite map_app. cbn [map Lead.id].
           split; [reflexivity|].
           intros Hnd. apply query_first_None in Hq.
           apply (Permutation_NoDup
                    (Permutation_cons_append (map Lead.id (rows w)) lead_id)).
           now constructor.
      * unfold create_lead. rewrite Hp, Hid. now apply Same.
    + rewrite (create_lead_non_pdf _ _ _ _ _ Hp).
      now apply Same.
Qed.

End History.

Section Service.

(** Any sequence of requests: the table holds, in the order of creation,
    exactly the ids the responses reported as created, each once. *)
Lemma serve_ids (rs : list request) :
  forall w,
    map Lead.id (rows (fst (serve w rs)))
    = (map Lead.id (rows w) ++ created_ids rs (snd (serve w rs)))%list
    /\ (NoDup (map Lead.id (rows w)) ->
        NoDup (map Lead.id (rows (fst (serve w rs))))).
Proof.
  induction rs as [|r rs IH]; intros w.
  - cbn [serve fst snd created_ids]. rewrite app_nil_r.
    split; [reflexivity|exact (fun H => H)].
  - cbn [serve].
    destruct (app_ids w r) as [Hr Hn].
    destruct (app w r) as [w1 out].
    destruct (IH w1) as [Hrs Hns].
    destruct (serve w1 rs) as [w2 outs].
    cbn [fst snd] in *.
    split; [|intros H; apply Hns, Hn, H].
    now rewrite created_ids_cons, Hrs, Hr, app_assoc.
Qed.

End Service.


Example get_leads_two :
  let resume := {| filename := "cv.pdf"; content := pdf_bytes |} in
  snd (serve empty_world
         [POST_leads "A" "B" "a@b.co" resume;
          POST_leads "Jane" "Doe" "Jane.Doe@Example.com" resume;
          POST_leads "J" "D" "JANE.DOE@example.com" resume;
          GET_leads (Some INTERNAL_API_KEY)])
  = [Json (LeadOut.Make "b33a54a5-a598-e6d3-3561-66652048ada9" "A" "B"
             "a@b.co" "cv.pdf" PENDING);
     Json (LeadOut.Make "0cba00ca-3da1-b283-a572-87bcceb17e35" "Jane" "Doe"
             "jane.doe@example.com" "cv.pdf" PENDING);
     already_applied;
     JsonList
       [LeadOut.Make "b33a54a5-a598-e6d3-3561-66652048ada9" "A" "B"
          "a@b.co" "cv.pdf" PENDING;
        LeadOut.Make "0cba00ca-3da1-b283-a572-87bcceb17e35" "Jane" "Doe"
          "jane.doe@example.com" "cv.pdf" PENDING]].
Proof. vm_compute. reflexivity. Qed.

(** ** Identity: [create_uuid_from_string] *)

Section Digest.

Lemma le_bytes_length (n : nat) (x : Z) : List.length (MD5.le_bytes n x) = n.
Proof.
  revert x; induction n as [|n IH]; intros x; simpl; [reflexivity|].
  now rewrite IH.
Qed.

Lemma le_bytes_range (n : nat) (x : Z) : Forall is_byte (MD5.le_bytes n x).
Proof.
  revert x; induction n as [|n IH]; intros x; simpl; constructor.
  - apply Z.mod_pos_bound. lia.
  - apply IH.
Qed.

Lemma md5_length (msg : list Z) : List.length (MD5.md5 msg) = 16%nat.
Proof.
  unfold MD5.md5, MD5.digest_bytes.
  now rewrite !List.length_app, !le_bytes_length.
Qed.

Lemma md5_range (msg : list Z) : Forall is_byte (MD5.md5 msg).
Proof.
  unfold MD5.md5, MD5.digest_bytes.
  repeat (apply Forall_app; split); apply le_bytes_range.
Qed.

Lemma hex_of_bytes_length (bs : list Z) :
  String.length (MD5.hex_of_bytes bs) = (2 * List.length bs)%nat.
Proof.
  induction bs as [|b bs IH]; simpl; [reflexivity|].
  rewrite IH. lia.
Qed.

Lemma nibble_cases (d : Z) (P : Z -> Prop) :
  0 <= d < 16 ->
  P 0 -> P 1 -> P 2 -> P 3 -> P 4 -> P 5 -> P 6 -> P 7 ->
  P 8 -> P 9 -> P 10 -> P 11 -> P 12 -> P 13 -> P 14 -> P 15 -> P d.
Proof.
  intros H. intros.
  assert (C : d = 0 \/ d = 1 \/ d = 2 \/ d = 3 \/ d = 4 \/ d = 5 \/ d = 6
              \/ d = 7 \/ d = 8 \/ d = 9 \/ d = 10 \/ d = 11 \/ d = 12
              \/ d = 13 \/ d = 14 \/ d = 15) by lia.
  repeat (destruct C as [->|C]; [assumption|]). now subst.
Qed.

Lemma hex_val_hex_char (d : Z) :
  0 <= d < 16 -> Uuid.hex_val (MD5.hex_char d) = Some d.
Proof.
  intros H. apply (nibble_cases d); [exact H|..]; reflexivity.
Qed.

Lemma hex_char_lower (d : Z) :
  0 <= d < 16 -> Uuid.is_lower_hex (MD5.hex_char d) = true.
Proof.
  intros H. apply (nibble_cases d); [exact H|..]; reflexivity.
Qed.

(** The hexadecimal digest always reads back as a number. *)
Lemma int16_hex_of_bytes (bs : list Z) :
  Forall is_byte bs ->
  forall acc, exists n, Uuid.int16 acc (MD5.hex_of_bytes bs) = Some n.
Proof.
  induction 1 as [|b bs Hb _ IH]; intros acc; simpl.
  - now exists acc.
  - unfold is_byte in Hb.
    rewrite !hex_val_hex_char.
    + apply IH.
    + apply Z.mod_pos_bound. lia.
    + split; [apply Z.div_pos; lia|apply Z.div_lt_upper_bound; lia].
Qed.

Lemma UUID_hexdigest (msg : list Z) :
  exists n, Uuid.UUID (MD5.hexdigest msg) = Some n.
Proof.
  unfold Uuid.UUID, MD5.hexdigest.
  rewrite hex_of_bytes_length, md5_length. cbn [Nat.mul Nat.add Nat.eqb].
  apply int16_hex_of_bytes, md5_range.
Qed.

End Digest.

Section Canonical.

Lemma string_of_list_ascii_app (l1 l2 : list ascii) :
  string_of_list_ascii (l1 ++ l2)
  = string_of_list_ascii l1 ++ string_of_list_ascii l2.
Proof.
  induction l1 as [|c l1 IH]; simpl; [reflexivity|].
  now rewrite IH.
Qed.

(** The digits written by ['%x'] are lower-case hexadecimal digits. *)
Lemma hex_digits_chars (k : nat) :
  forall n, exists l,
    Uuid.hex_digits k n = string_of_list_ascii l
    /\ List.length l = k
    /\ Forall (fun c => Uuid.is_lower_hex c = true) l.
Proof.
  induction k as [|k IH]; intros n; simpl.
  - exists []. repeat split. constructor.
  - destruct (IH (n / 16)) as (l & E & L & F).
    exists (l ++ [MD5.hex_char (n mod 16)])%list.
    rewrite string_of_list_ascii_app, E, List.length_app, L.
    repeat split; [simpl; lia|].
    apply Forall_app; split; [exact F|].
    constructor; [|constructor].
    apply hex_char_lower, Z.mod_pos_bound. lia.
Qed.

(** [str] of any UUID has the canonical form. *)
Lemma str_canonical (n : Z) : Uuid.is_canonical (Uuid.str n) = true.
Proof.
  unfold Uuid.str, Uuid.format_032x.
  destruct (hex_digits_chars 32 n) as (l & -> & L & F).
  do 32 (destruct l as [|? l]; [discriminate L|]).
  destruct l; [|discriminate L]. clear L.
  repeat match goal with
         | H : Forall _ (_ :: _) |- _ =>
             let H1 := fresh "H" in
             let H2 := fresh "F" in
             apply Forall_cons_iff in H as [H1 H2]
         end.
  unfold Uuid.is_canonical.
  cbn -[Uuid.is_lower_hex].
  repeat match goal with
         | H : Uuid.is_lower_hex _ = true |- _ => rewrite H; clear H
         end.
  reflexivity.
Qed.

Lemma create_uuid_from_string_total (val : string) :
  exists u,
    create_uuid_from_string val = Some u /\ Uuid.is_canonical u = true.
Proof.
  unfold create_uuid_from_string.
  destruct (UUID_hexdigest (PyStr.encode val)) as [n ->].
  exists (Uuid.str n). split; [reflexivity|apply str_canonical].
Qed.

End Canonical.

(** ** The validation of the e-mail and the id *)

Section CharacterClasses.




Lemma word_or_blank_space (c : ascii) :
  Pydantic.is_word c || (c =? " ")%char = true ->
  PyStr.is_space c = true -> c = " "%char.
Proof.
  destruct c as [[] [] [] [] [] [] [] []]; try discriminate; reflexivity.
Qed.

End CharacterClasses.

Section Strip.











End Strip.

Section PrettyForm.














End PrettyForm.

Example validate_email_trims :
  Pydantic.validate_email (fun _ => true) "  Jane.Doe@Example.COM "
  = Some "Jane.Doe@example.com".
Proof. reflexivity. Qed.

Example validate_email_pretty :
  Pydantic.validate_email (fun _ => true) "Jane Doe <Jane.Doe@Example.COM>"
  = Some "Jane.Doe@example.com".
Proof. reflexivity. Qed.

Example validate_email_refuses :
  Pydantic.validate_email (fun _ => true) "jane doe@example.com" = None.
Proof. reflexivity. Qed.



Example submitted_lead_id_jane :
  submitted_lead_id (fun _ => true) "  Jane.Doe@Example.com "
  = Some "0cba00ca-3da1-b283-a572-87bcceb17e35".
Proof. vm_compute. reflexivity. Qed.

(** ** Handlers in sequence *)

Section Sequences.

Lemma commit_commit (db : table) (o1 o2 : instance) :
  Lead.id (columns o1) = Lead.id (columns o2) ->
  commit (commit db o1) o2 = commit db o2.
Proof.
  intros E. unfold commit.
  rewrite map_map. apply map_ext; intros r. rewrite E.
  destruct (Lead.id r =? Lead.id (columns o2))%string eqn:Hr.
  - rewrite E. now rewrite String.eqb_refl.
  - now rewrite Hr.
Qed.




End Sequences.



(** Submitting again under an e-mail that differs at most in case is
    refused: whatever the first submission did, a second one with a ".pdf"
    file answers "already applied" and leaves the table and the outbox as
    the first one left them. *)
Theorem resubmission_is_refused :
  forall first_name last_name email resume first_name' last_name' email'
         resume' w,
    PyStr.endswith (PyStr.lower (filename resume)) ".pdf" = true ->
    PyStr.endswith (PyStr.lower (filename resume')) ".pdf" = true ->
    PyStr.lower email' = PyStr.lower email ->
    let w1 := fst (create_lead first_name last_name email resume w) in
    create_lead first_name' last_name' email' resume' w1
    = (w1, already_applied).
Proof.
  intros first_name last_name email resume first_name' last_name' email'
    resume' w Hpdf Hpdf' He w1.
  destruct (create_uuid_from_string_total (PyStr.lower email))
    as (lead_id & Hid & _).
  assert (Hid' : create_uuid_from_string (PyStr.lower email') = Some lead_id)
    by now rewrite He.
  destruct (query_first (rows w) lead_id) as [l|] eqn:Hq.
  - subst w1.
    rewrite (create_lead_existing _ _ _ _ _ _ _ Hpdf Hid Hq). cbn [fst].
    exact (create_lead_existing _ _ _ _ _ _ _ Hpdf' Hid' Hq).
  - destruct (create_lead_new first_name last_name email resume w lead_id
                Hpdf Hid Hq) as (thanks & alert & E & _ & _ & Hnew).
    subst w1. rewrite E. cbn [fst].
    eapply create_lead_existing; [exact Hpdf'|exact Hid'|].
    cbn [rows]. exact Hnew.
Qed.

Lemma resubmission_is_refused_witness :
  let resume := {| filename := "cv.pdf"; content := pdf_bytes |} in
  let w1 := fst (create_lead "Jane" "Doe" "Jane.Doe@Example.com" resume
                   empty_world) in
  create_lead "J." "D." "JANE.DOE@EXAMPLE.COM"
    {| filename := "other.Pdf"; content := [] |} w1
  = (w1, already_applied).
Proof.
  apply (resubmission_is_refused "Jane" "Doe" "Jane.Doe@Example.com"
           {| filename := "cv.pdf"; content := pdf_bytes |}
           "J." "D." "JANE.DOE@EXAMPLE.COM"
           {| filename := "other.Pdf"; content := [] |} empty_world);
    reflexivity.
Defined.



(** A file name with a character above U+00FF (here U+0418, the bytes D0
    98) is stored by [update_resume] and shown by [get_lead], and the
    download of that lead then fails. *)
Example download_of_unencodable_name :
  let resume := {| filename := String (ascii_of_N 208)
                                 (String (ascii_of_N 152) ".pdf");
                   content := pdf_bytes |} in
  let w1 := fst (update_resume (Lead.id jane) resume jane_world) in
  download_resume (Lead.id jane) w1 = (w1, ServerError).
Proof. vm_compute. reflexivity. Qed.

(** Of two state updates of the same lead the later one wins: the second
    call answers, and leaves the service, exactly as if the first had not
    been made. *)
Theorem update_lead_state_last_wins :
  forall w lead_id l update1 update2,
    query_first (rows w) lead_id = Some l ->
    update_lead_state lead_id update2
      (fst (update_lead_state lead_id update1 w))
    = update_lead_state lead_id update2 w.
Proof.
  intros w lead_id l update1 update2 Hq.
  destruct (update_lead_state_found w lead_id l Hq update1) as [E1 Hq1].
  destruct (update_lead_state_found w lead_id l Hq update2) as [E2 _].
  rewrite E1, E2. cbn [fst].
  destruct (update_lead_state_found
              {| rows := commit (rows w)
                           {| columns :=
                                Lead.with_state (update_state update1) l;
                              unmapped := [] |};
                 outbox := outbox w |} lead_id
              (Lead.with_state (update_state update1) l) Hq1 update2)
    as [E _].
  rewrite E. cbn [rows outbox].
  rewrite commit_commit by reflexivity.
  reflexivity.
Qed.

Lemma update_lead_state_last_wins_witness :
  update_lead_state (Lead.id jane) {| update_state := REACHED_OUT |}
    (fst (update_lead_state (Lead.id jane) {| update_state := PENDING |}
            jane_world))
  = update_lead_state (Lead.id jane) {| update_state := REACHED_OUT |}
      jane_world.
Proof.
  apply (update_lead_state_last_wins jane_world (Lead.id jane) jane).
  reflexivity.
Defined.

(** ** The id and the digest *)

Section HexRoundTrip.

Lemma string_app_assoc (s t u : string) : (s ++ t) ++ u = s ++ (t ++ u).
Proof.
  induction s as [|c s IH]; simpl; [reflexivity|].
  now rewrite IH.
Qed.

Lemma string_app_nil_l (s : string) : "" ++ s = s.
Proof. reflexivity. Qed.

Lemma shift_nibble (a d : Z) :
  0 <= d < 16 -> (16 * a + d) mod 16 = d /\ (16 * a + d) / 16 = a.
Proof.
  intros H. split; symmetry.
  - apply (Z.mod_unique (16 * a + d) 16 a d); [left; exact H|reflexivity].
  - apply (Z.div_unique (16 * a + d) 16 a d); [left; exact H|reflexivity].
Qed.

(** Reading the hexadecimal text of bytes as a number and writing the
    number back in hexadecimal gives the text again, after the digits of
    whatever was read before it. *)
Lemma hex_digits_int16 (bs : list Z) :
  Forall is_byte bs ->
  forall acc, exists n,
    Uuid.int16 acc (MD5.hex_of_bytes bs) = Some n
    /\ forall k,
        Uuid.hex_digits (2 * List.length bs + k) n
        = Uuid.hex_digits k acc ++ MD5.hex_of_bytes bs.
Proof.
  induction 1 as [|b bs Hb _ IH]; intros acc.
  - exists acc. split; [reflexivity|].
    intros k. cbn [List.length Nat.mul Nat.add MD5.hex_of_bytes].
    induction (Uuid.hex_digits k acc) as [|c s IHs]; simpl; congruence.
  - unfold is_byte in Hb.
    assert (Hhi : 0 <= b / 16 < 16).
    { split; [apply Z.div_pos; lia|apply Z.div_lt_upper_bound; lia]. }
    assert (Hlo : 0 <= b mod 16 < 16) by (apply Z.mod_pos_bound; lia).
    destruct (IH (16 * (16 * acc + b / 16) + b mod 16)) as (n & Hn & Hd).
    exists n. split.
    + cbn [MD5.hex_of_bytes Uuid.int16].
      now rewrite !hex_val_hex_char by assumption.
    + intros k.
      replace (2 * List.length (b :: bs) + k)%nat
        with (2 * List.length bs + S (S k))%nat by (cbn [List.length]; lia).
      rewrite Hd. cbn [Uuid.hex_digits MD5.hex_of_bytes].
      destruct (shift_nibble (16 * acc + b / 16) (b mod 16) Hlo)
        as [-> ->].
      destruct (shift_nibble acc (b / 16) Hhi) as [-> ->].
      rewrite !string_app_assoc. reflexivity.
Qed.

Lemma format_032x_hexdigest (msg : list Z) :
  exists n,
    Uuid.UUID (MD5.hexdigest msg) = Some n
    /\ Uuid.format_032x n = MD5.hexdigest msg.
Proof.
  destruct (hex_digits_int16 (MD5.md5 msg) (md5_range msg) 0)
    as (n & Hn & Hd).
  exists n. split.
  - unfold Uuid.UUID, MD5.hexdigest.
    rewrite hex_of_bytes_length, md5_length. exact Hn.
  - specialize (Hd 0%nat). rewrite md5_length in Hd. exact Hd.
Qed.

End HexRoundTrip.

(** The id derived from a text is, for every text, the MD5 hexadecimal
    digest of the text cut 8-4-4-4-12 and joined by hyphens: taking the
    hyphens out of an id gives the digest back. *)
Theorem create_uuid_from_string_is_hyphenated_digest :
  forall val,
    create_uuid_from_string val
    = Some (hyphenated (MD5.hexdigest (PyStr.encode val))).
Proof.
  intros val. unfold create_uuid_from_string.
  destruct (format_032x_hexdigest (PyStr.encode val)) as (n & -> & Hf).
  unfold Uuid.str, hyphenated. rewrite Hf.
  unfold MD5.hexdigest at 5.
  rewrite hex_of_bytes_length, md5_length. reflexivity.
Qed.

(** ** What every request keeps *)

Section Steps.

(** A request leaves the state alone, or adds one row as [create_lead]
    makes it with its two e-mails, or rewrites one row in place keeping its
    fixed columns. *)
Lemma app_cases (w : world) (r : request) :
  fst (app w r) = w
  \/ (exists lead thanks alert,
        query_first (rows w) (Lead.id lead) = None
        /\ derived_row lead
        /\ fst (app w r)
           = {| rows := (rows w ++ [lead])%list;
                outbox := (outbox w ++ [thanks; alert])%list |}
        /\ to thanks = Lead.email lead
        /\ to alert = ATTORNEY_EMAIL)
  \/ (exists l o,
        In l (rows w)
        /\ fixed_columns (columns o) = fixed_columns l
        /\ fst (app w r)
           = {| rows := commit (rows w) o; outbox := outbox w |}).
Proof.
  unfold app.
  destruct (credential r) as [k|] eqn:Hc.
  - unfold depends_api_key.
    destruct (get_api_key k); [now left|].
    destruct r as [? ? ? ?|?|? lead_id|? lead_id|? lead_id resume
                  |? lead_id update]; try discriminate; cbn [handler].
    + now left.
    + left. unfold get_lead.
      now destruct (query_first (rows w) lead_id).
    + left. unfold download_resume.
      now destruct (query_first (rows w) lead_id).
    + destruct (query_first (rows w) lead_id) as [l|] eqn:Hq.
      * destruct (update_resume_found w lead_id l Hq resume) as [E _].
        right; right. eexists l, _. rewrite E. cbn [fst].
        split; [exact (query_first_In _ _ _ Hq)|].
        split; [|reflexivity]. reflexivity.
      * left. unfold update_resume. now rewrite Hq.
    + destruct (query_first (rows w) lead_id) as [l|] eqn:Hq.
      * destruct (update_lead_state_found w lead_id l Hq update) as [E _].
        right; right. eexists l, _. rewrite E. cbn [fst].
        split; [exact (query_first_In _ _ _ Hq)|].
        split; [|reflexivity]. reflexivity.
      * left. unfold update_lead_state. now rewrite Hq.
  - destruct r as [first_name last_name email resume| | | | |];
      try discriminate.
    cbn [handler].
    destruct (PyStr.endswith (PyStr.lower (filename resume)) ".pdf") eqn:Hp;
      [|left; now rewrite (create_lead_non_pdf _ _ _ _ _ Hp)].
    destruct (create_uuid_from_string (PyStr.lower email))
      as [lead_id|] eqn:Hid;
      [|left; unfold create_lead; now rewrite Hp, Hid].
    destruct (query_first (rows w) lead_id) as [l|] eqn:Hq;
      [left; now rewrite (create_lead_existing _ _ _ _ _ _ _ Hp Hid Hq)|].
    destruct (create_lead_new first_name last_name email resume w lead_id
                Hp Hid Hq) as (thanks & alert & E & Ht & Ha & _).
    right; left.
    exists (Lead.Make lead_id first_name last_name (PyStr.lower email)
              (filename resume) (content resume) PENDING), thanks, alert.
    rewrite E. cbn [fst].
    split; [exact Hq|].
    split; [split; cbn [Lead.email Lead.id]; [apply lower_idem|exact Hid]|].
    split; [reflexivity|]. split; [exact Ht|exact Ha].
Qed.

(** Two rows of a table with a unique key that have the same id are the
    same row. *)
Lemma unique_key (db : table) (a b : Lead.t) :
  NoDup (map Lead.id db) -> In a db -> In b db ->
  Lead.id a = Lead.id b -> a = b.
Proof.
  induction db as [|r db IH]; simpl; [contradiction|].
  intros Hnd [Ha|Ha] [Hb|Hb] E; inversion Hnd as [|? ? Hnot Hnd']; subst.
  - reflexivity.
  - exfalso. apply Hnot. rewrite E. now apply in_map.
  - exfalso. apply Hnot. rewrite <- E. now apply in_map.
  - now apply IH.
Qed.

(** An update that keeps the fixed columns of the row it was loaded from
    keeps the fixed columns of the table. *)
Lemma commit_fixed_columns (db : table) (o : instance) (l : Lead.t) :
  NoDup (map Lead.id db) -> In l db ->
  fixed_columns (columns o) = fixed_columns l ->
  map fixed_columns (commit db o) = map fixed_columns db.
Proof.
  intros Hnd Hl E. unfold commit. rewrite map_map.
  apply map_ext_in; intros r Hr.
  destruct (String.eqb_spec (Lead.id r) (Lead.id (columns o))) as [Hid|_];
    [|reflexivity].
  assert (r = l) as ->; [|exact E].
  apply (unique_key db); try assumption.
  rewrite Hid. unfold fixed_columns in E. congruence.
Qed.

Lemma recipients_fixed (db1 db2 : table) :
  map fixed_columns db1 = map fixed_columns db2 ->
  recipients db1 = recipients db2.
Proof.
  revert db2; induction db1 as [|a db1 IH]; intros [|b db2] E;
    try discriminate; [reflexivity|].
  simpl in E. injection E as Ea E.
  unfold recipients; simpl. f_equal; [unfold fixed_columns in Ea; congruence|].
  f_equal. now apply IH.
Qed.

Lemma derived_row_fixed (a b : Lead.t) :
  fixed_columns a = fixed_columns b -> derived_row b -> derived_row a.
Proof.
  unfold fixed_columns, derived_row. intros E [H1 H2].
  injection E as Eid _ _ Eem _. rewrite Eid, Eem. now split.
Qed.

Lemma app_consistent (w : world) (r : request) :
  consistent w -> consistent (fst (app w r)).
Proof.
  intros (Hnd & Hrows & Hout).
  destruct (app_cases w r)
    as [->|[(lead & thanks & alert & Hq & Hd & -> & Ht & Ha)
           |(l & o & Hl & Hf & ->)]];
    [now repeat split|..]; unfold consistent; cbn [rows outbox].
  - repeat split.
    + rewrite map_app. cbn [map].
      apply (Permutation_NoDup
               (Permutation_cons_append (map Lead.id (rows w))
                  (Lead.id lead))).
      constructor; [now apply query_first_None|exact Hnd].
    + apply Forall_app. split; [exact Hrows|now constructor].
    + rewrite map_app, Hout. unfold recipients.
      rewrite flat_map_app. cbn [map flat_map List.app].
      now rewrite Ht, Ha.
  - repeat split.
    + now rewrite commit_ids.
    + unfold commit. apply Forall_map.
      rewrite Forall_forall in Hrows |- *. intros x Hx.
      destruct (Lead.id x =? Lead.id (columns o))%string; [|now apply Hrows].
      apply (derived_row_fixed _ l Hf), Hrows, Hl.
    + rewrite Hout. symmetry.
      apply recipients_fixed, (commit_fixed_columns _ _ l); assumption.
Qed.

Lemma serve_cons (w : world) (r : request) (rs : list request) :
  serve w (r :: rs)
  = (fst (serve (fst (app w r)) rs),
     snd (app w r) :: snd (serve (fst (app w r)) rs)).
Proof.
  cbn [serve]. destruct (app w r) as [w1 out].
  cbn [fst snd]. now destruct (serve w1 rs).
Qed.

Lemma serve_consistent (rs : list request) :
  forall w, consistent w -> consistent (fst (serve w rs)).
Proof.
  induction rs as [|r rs IH]; intros w H; [exact H|].
  rewrite serve_cons. cbn [fst]. apply IH, app_consistent, H.
Qed.

Lemma empty_world_consistent : consistent empty_world.
Proof.
  repeat split; constructor.
Qed.

End Steps.

Section Histories.

Lemma serve_key_unique (rs : list request) (w : world) :
  NoDup (map Lead.id (rows w)) ->
  NoDup (map Lead.id (rows (fst (serve w rs)))).
Proof.
  apply (proj2 (serve_ids rs w)).
Qed.

(** The fixed columns of the rows after a sequence of requests: those
    before it, in place, then those of the rows added. *)
Lemma serve_fixed_columns (rs : list request) :
  forall w,
    NoDup (map Lead.id (rows w)) ->
    exists added,
      map fixed_columns (rows (fst (serve w rs)))
      = (map fixed_columns (rows w) ++ added)%list.
Proof.
  induction rs as [|r rs IH]; intros w Hnd.
  - exists []. cbn [serve fst]. now rewrite app_nil_r.
  - rewrite serve_cons. cbn [fst].
    pose proof (proj2 (app_ids w r) Hnd) as Hnd1.
    destruct (IH _ Hnd1) as (added & Hadd). rewrite Hadd.
    destruct (app_cases w r)
      as [->|[(lead & thanks & alert & _ & _ & -> & _)
             |(l & o & Hl & Hf & ->)]]; cbn [rows].
    + now exists added.
    + exists (fixed_columns lead :: added).
      rewrite map_app, <- app_assoc. reflexivity.
    + exists added. now rewrite (commit_fixed_columns _ _ l).
Qed.


End Histories.

(** Whatever requests a service that started empty has answered, every row
    of its table is as [create_lead] makes one: the e-mail is in lower
    case, the id is the id derived from that e-mail, and the id is a UUID
    in canonical form.  No update breaks the tie between e-mail and id. *)
Theorem stored_rows_stay_derived :
  forall rs : list request,
    Forall (fun r => derived_row r /\ Uuid.is_canonical (Lead.id r) = true)
           (rows (fst (serve empty_world rs))).
Proof.
  intros rs.
  destruct (serve_consistent rs empty_world empty_world_consistent)
    as (_ & Hrows & _).
  apply Forall_impl with (2 := Hrows).
  intros r Hr. split; [exact Hr|].
  destruct Hr as [_ Hid].
  destruct (create_uuid_from_string_total (Lead.email r)) as (u & Hu & Hc).
  congruence.
Qed.


(** No request deletes a lead or rewrites what identifies it: a lead of a
    table with a unique key is, after any sequence of requests, still found
    under its id, with the same id, first name, last name, e-mail and
    stored resume bytes. *)
Theorem stored_lead_is_never_lost :
  forall w rs l,
    NoDup (map Lead.id (rows w)) ->
    In l (rows w) ->
    exists l',
      query_first (rows (fst (serve w rs))) (Lead.id l) = Some l'
      /\ fixed_columns l' = fixed_columns l.
Proof.
  intros w rs l Hnd Hl.
  destruct (serve_fixed_columns rs w Hnd) as (added & Hadd).
  pose proof (serve_key_unique rs w Hnd) as Hnd'.
  set (w' := fst (serve w rs)) in *.
  assert (Hin : In (fixed_columns l) (map fixed_columns (rows w'))).
  { rewrite Hadd. apply in_or_app. left. now apply in_map. }
  apply in_map_iff in Hin as (l1 & Hf & Hl1).
  assert (Hid : Lead.id l1 = Lead.id l)
    by (unfold fixed_columns in Hf; congruence).
  destruct (query_first (rows w') (Lead.id l)) as [l2|] eqn:Hq.
  - exists l2. split; [reflexivity|].
    rewrite <- Hf. f_equal.
    apply (unique_key (rows w')); try assumption.
    + exact (query_first_In _ _ _ Hq).
    + rewrite Hid. exact (query_first_id _ _ _ Hq).
  - exfalso. apply query_first_None in Hq. apply Hq.
    rewrite <- Hid. now apply in_map.
Qed.

Lemma stored_lead_is_never_lost_witness :
  exists l',
    query_first
      (rows (fst (serve jane_world
                    [PUT_lead_resume (Some INTERNAL_API_KEY) (Lead.id jane)
                       {| filename := "new.pdf"; content := [] |};
                     POST_leads "A" "B" "a@b.co"
                       {| filename := "cv.pdf"; content := pdf_bytes |};
                     PUT_lead_state (Some INTERNAL_API_KEY) (Lead.id jane)
                       {| update_state := REACHED_OUT |}])))
      (Lead.id jane) = Some l'
    /\ fixed_columns l' = fixed_columns jane.
Proof.
  apply (stored_lead_is_never_lost jane_world).
  - repeat constructor. simpl. tauto.
  - now left.
Defined.

(** ** The order of the listing *)

Section ListingOrder.

Lemma string_leb_trans (a b c : string) :
  String.leb a b = true -> String.leb b c = true -> String.leb a c = true.
Proof.
  revert b c; induction a as [|x a IH]; intros [|y b] [|z c];
    unfold String.leb; simpl; try congruence.
  unfold Ascii.compare.
  destruct (N.compare_spec (N_of_ascii x) (N_of_ascii y));
    destruct (N.compare_spec (N_of_ascii y) (N_of_ascii z));
    destruct (N.compare_spec (N_of_ascii x) (N_of_ascii z));
    try congruence; try lia.
  apply IH.
Qed.

Lemma id_desc_trans (a b c : Lead.t) :
  id_desc a b -> id_desc b c -> id_desc a c.
Proof.
  unfold id_desc. intros H1 H2. exact (string_leb_trans _ _ _ H2 H1).
Qed.

Lemma sorted_head_bounds (a : Lead.t) (l : list Lead.t) :
  Sorted id_desc (a :: l) -> Forall (id_desc a) l.
Proof.
  intros H. apply Sorted_StronglySorted in H.
  - now inversion H.
  - intros x y z. apply id_desc_trans.
Qed.

(** A list by id descending of rows with distinct ids is the only one of
    its rows. *)
Lemma sorted_unique (l1 : list Lead.t) :
  forall l2,
    Sorted id_desc l1 -> Sorted id_desc l2 ->
    NoDup (map Lead.id l1) -> Permutation l1 l2 -> l1 = l2.
Proof.
  induction l1 as [|a l1 IH]; intros l2 S1 S2 Hnd P.
  - now apply Permutation_nil in P.
  - destruct l2 as [|b l2];
      [apply Permutation_sym, Permutation_nil in P; discriminate|].
    assert (E : a = b).
    { pose proof (sorted_head_bounds _ _ S1) as B1.
      pose proof (sorted_head_bounds _ _ S2) as B2.
      rewrite Forall_forall in B1, B2.
      assert (Ha : In a (b :: l2))
        by (apply (Permutation_in _ P); now left).
      assert (Hb : In b (a :: l1))
        by (apply (Permutation_in _ (Permutation_sym P)); now left).
      destruct Ha as [Ha|Ha]; [now symmetry|].
      destruct Hb as [Hb|Hb]; [exact Hb|].
      apply (unique_key (a :: l1)); [exact Hnd|now left|now right|].
      apply String.leb_antisym; [apply B2, Ha|apply B1, Hb]. }
    subst b. f_equal.
    apply IH.
    + now inversion S1.
    + now inversion S2.
    + now inversion Hnd.
    + exact (Permutation_cons_inv P).
Qed.

End ListingOrder.

(** The listing does not depend on the order in which the leads were
    stored: two tables that hold the same rows under a unique key list the
    same sequence. *)
Theorem get_leads_ignores_storage_order :
  forall w1 w2,
    NoDup (map Lead.id (rows w1)) ->
    Permutation (rows w1) (rows w2) ->
    snd (get_leads w1) = snd (get_leads w2).
Proof.
  intros w1 w2 Hnd P. unfold get_leads. cbn [snd].
  do 2 f_equal.
  apply sorted_unique; try apply order_by_id_desc_sorted.
  - apply (Permutation_NoDup
             (Permutation_map Lead.id
                (Permutation_sym (order_by_id_desc_perm (rows w1))))).
    exact Hnd.
  - rewrite (order_by_id_desc_perm (rows w1)), P.
    symmetry. apply order_by_id_desc_perm.
Qed.

Lemma get_leads_ignores_storage_order_witness :
  let other :=
    Lead.Make "b33a54a5-a598-e6d3-3561-66652048ada9" "A" "B" "a@b.co"
              "cv.pdf" pdf_bytes PENDING in
  snd (get_leads {| rows := [jane; other]; outbox := [] |})
  = snd (get_leads {| rows := [other; jane]; outbox := [] |}).
Proof.
  apply get_leads_ignores_storage_order.
  - cbn [rows map]. repeat constructor; simpl; [|tauto].
    intros [H|[]]. discriminate.
  - apply perm_swap.
Defined.

(** ** More on handlers in sequence *)

(** A resume replacement overrides what was updated before it on the same
    lead: after a state update, or after another resume replacement,
    [update_resume] answers, and leaves the service, exactly as it would
    have done without the earlier update. *)
Theorem update_resume_overrides_earlier_updates :
  forall w lead_id l resume earlier_state earlier_resume,
    query_first (rows w) lead_id = Some l ->
    update_resume lead_id resume
      (fst (update_lead_state lead_id earlier_state w))
    = update_resume lead_id resume w
    /\ update_resume lead_id resume
         (fst (update_resume lead_id earlier_resume w))
       = update_resume lead_id resume w.
Proof.
  intros w lead_id l resume earlier_state earlier_resume Hq.
  destruct (update_resume_found w lead_id l Hq resume) as [E _].
  destruct (update_lead_state_found w lead_id l Hq earlier_state)
    as [E1 Hq1].
  destruct (update_resume_found w lead_id l Hq earlier_resume) as [E2 Hq2].
  rewrite E, E1, E2. cbn [fst].
  split.
  - destruct (update_resume_found
                {| rows := commit (rows w)
                             {| columns :=
                                  Lead.with_state
                                    (update_state earlier_state) l;
                                unmapped := [] |};
                   outbox := outbox w |} lead_id _ Hq1 resume) as [E' _].
    rewrite E'. cbn [rows outbox].
    rewrite commit_commit by reflexivity. reflexivity.
  - destruct (update_resume_found
                {| rows := commit (rows w)
                             {| columns :=
                                  Lead.Make (Lead.id l) (Lead.first_name l)
                                    (Lead.last_name l) (Lead.email l)
                                    (filename earlier_resume)
                                    (Lead.resume_data l) PENDING;
                                unmapped :=
                                  [("resume_date", content earlier_resume)]
                             |};
                   outbox := outbox w |} lead_id _ Hq2 resume) as [E' _].
    rewrite E'. cbn [rows outbox].
    rewrite commit_commit by reflexivity. reflexivity.
Qed.

Lemma update_resume_overrides_earlier_updates_witness :
  let resume := {| filename := "final.pdf"; content := pdf_bytes |} in
  update_resume (Lead.id jane) resume
    (fst (update_lead_state (Lead.id jane)
            {| update_state := REACHED_OUT |} jane_world))
  = update_resume (Lead.id jane) resume jane_world
  /\ update_resume (Lead.id jane) resume
       (fst (update_resume (Lead.id jane)
               {| filename := "draft.pdf"; content := [] |} jane_world))
     = update_resume (Lead.id jane) resume jane_world.
Proof.
  apply (update_resume_overrides_earlier_updates jane_world (Lead.id jane)
           jane).
  reflexivity.
Defined.

(** A submission changes what is stored under no id but the one derived
    from its e-mail: every other id reads after the call as before it,
    whether the submission was stored or refused. *)
Theorem create_lead_leaves_other_ids :
  forall first_name last_name email resume w other,
    create_uuid_from_string (PyStr.lower email) <> Some other ->
    query_first
      (rows (fst (create_lead first_name last_name email resume w))) other
    = query_first (rows w) other.
Proof.
  intros first_name last_name email resume w other Hne.
  destruct (PyStr.endswith (PyStr.lower (filename resume)) ".pdf") eqn:Hp;
    [|now rewrite (create_lead_non_pdf _ _ _ _ _ Hp)].
  destruct (create_uuid_from_string_total (PyStr.lower email))
    as (lead_id & Hid & _).
  destruct (query_first (rows w) lead_id) as [l|] eqn:Hq;
    [now rewrite (create_lead_existing _ _ _ _ _ _ _ Hp Hid Hq)|].
  destruct (create_lead_new first_name last_name email resume w lead_id
              Hp Hid Hq) as (thanks & alert & E & _).
  rewrite E. cbn [fst rows].
  apply (query_first_add_commit_other (rows w)).
  cbn [Lead.id]. congruence.
Qed.

Lemma create_lead_leaves_other_ids_witness :
  query_first
    (rows (fst (create_lead "A" "B" "a@b.co"
                  {| filename := "cv.pdf"; content := [] |} jane_world)))
    (Lead.id jane)
  = query_first (rows jane_world) (Lead.id jane).
Proof.
  apply create_lead_leaves_other_ids.
  vm_compute. discriminate.
Defined.
